(** * combine_etf_weights: a shallow embedding and its properties

    The development follows [src/combine_etf_weights.py] function by
    function.

    - Python [str] values are [string]s; where a function works on the
      characters of a string it goes through [list ascii].
    - Python floats are read as exact rationals [Q]; the not-a-number value
      that pandas uses for a missing or unparseable cell is [None] in
      [option Q].  Statements about sums are therefore statements of exact
      arithmetic, written with [==] on [Q].
    - A pandas column is a list of cells, a two-column frame a list of pairs
      in row order, and a Python [dict] an association list in insertion
      order.
    - What the script leaves to pandas, openpyxl, zipfile and the operating
      system (parsing a number, decoding a workbook, sorting a frame,
      removing a file) is a section variable, or an explicit outcome carried
      by the input.
    - A raw cell is the text that [astype(str)] gives for it.  Printing and
      the rounded column [total_weight_pct], which is computed from
      [total_weight] after the sort, are left out. *)

From Stdlib Require Import List String Ascii Bool Arith ZArith Lia.
From Stdlib Require Import QArith Qfield Lqa.
From Stdlib Require Import Permutation Sorted.
From Stdlib Require OrderedTypeEx.
Import ListNotations.

Open Scope string_scope.
Open Scope Q_scope.
Open Scope list_scope.

Set Implicit Arguments.

(** ** Characters and strings *)

Module PyStr.

(** [str.isspace] on the code points below 256. *)
Definition isspace (c : ascii) : bool :=
  let n := nat_of_ascii c in
  ((9 <=? n) && (n <=? 13) || (28 <=? n) && (n <=? 32)
   || (n =? 133) || (n =? 160))%nat.

Fixpoint lstrip (l : list ascii) : list ascii :=
  match l with
  | [] => []
  | c :: l' => if isspace c then lstrip l' else l
  end.

Definition rstrip (l : list ascii) : list ascii := rev (lstrip (rev l)).

(** [str.strip()]: whitespace removed at both ends. *)
Definition strip (l : list ascii) : list ascii := rstrip (lstrip l).

Definition dot : ascii := "."%char.
Definition zero : ascii := "0"%char.
Definition newline : ascii := ascii_of_nat 10.

Definition list_eqb (a b : list ascii) : bool :=
  if list_eq_dec ascii_dec a b then true else false.

(** [re.sub(r"\.0$", "", l)]: the scan moves right until the rest of the
    string is [".0"], or [".0"] followed by one final newline, which is
    where [$] matches. *)
Fixpoint sub_dot0 (l : list ascii) : list ascii :=
  match l with
  | [] => []
  | c :: l' =>
      if list_eqb l [dot; zero] then []
      else if list_eqb l [dot; zero; newline] then [newline]
      else c :: sub_dot0 l'
  end.

(** [str.replace("%", "", regex=False)]: every percent sign goes. *)
Definition remove_percent (l : list ascii) : list ascii :=
  filter (fun c => negb (Ascii.eqb c "%"%char)) l.

Definition ends_space (l : list ascii) : bool :=
  match rev l with
  | c :: _ => isspace c
  | [] => false
  end.

Definition ends_dot0 (l : list ascii) : bool :=
  match rev l with
  | a :: b :: _ => Ascii.eqb a zero && Ascii.eqb b dot
  | _ => false
  end.

Definition starts_space (l : list ascii) : bool :=
  match l with
  | c :: _ => isspace c
  | [] => false
  end.

End PyStr.

(** ** Field normaliser *)

(** [_normalize_code], on one cell of the column (the text that
    [astype(str)] gives for it). *)
Definition normalize_code_chars (l : list ascii) : list ascii :=
  PyStr.sub_dot0 (PyStr.strip l).

Definition _normalize_code_cell (s : string) : string :=
  string_of_list_ascii (normalize_code_chars (list_ascii_of_string s)).

Definition _normalize_code (s : list string) : list string :=
  map _normalize_code_cell s.

(** Comparisons and sums on floats. *)
Definition Qgtb (x y : Q) : bool := negb (Qle_bool x y).

Definition sumQ (l : list Q) : Q := fold_left Qplus l 0.

Definition fillna0 (x : option Q) : Q :=
  match x with
  | Some v => v
  | None => 0
  end.

(** [Series.max(skipna=True)]: [None] when no cell holds a number. *)
Fixpoint col_max (l : list (option Q)) : option Q :=
  match l with
  | [] => None
  | x :: l' =>
      match x, col_max l' with
      | None, m => m
      | Some v, None => Some v
      | Some v, Some m => Some (if Qle_bool m v then v else m)
      end
  end.

Section Normaliser.

(** [pd.to_numeric(errors="coerce")] on one cell; [None] is NaN. *)
Variable to_numeric : string -> option Q.

Definition clean_weight_cell (s : string) : string :=
  string_of_list_ascii
    (PyStr.remove_percent (PyStr.strip (list_ascii_of_string s))).

Definition parse_column (s : list string) : list (option Q) :=
  map (fun x => to_numeric (clean_weight_cell x)) s.

(** The column-wide decision of [_to_fraction] on the parsed column. *)
Definition scale_column (s1 : list (option Q)) : list (option Q) :=
  match col_max s1 with
  | Some maxv =>
      if Qgtb maxv 1 then map (option_map (fun v => v / 100)) s1 else s1
  | None => s1
  end.

Definition _to_fraction (s : list string) : list Q :=
  let s1 := parse_column s in
  let s1 := scale_column s1 in
  map fillna0 s1.

End Normaliser.

(** A reader of plain decimal literals (sign, digits, one optional point),
    used to run the model on concrete cells; on these literals it gives the
    number they denote, and [None] on anything else. *)
Module Decimal.

Definition digit (c : ascii) : option Z :=
  let n := nat_of_ascii c in
  if ((48 <=? n) && (n <=? 57))%nat then Some (Z.of_nat (n - 48)) else None.

(** Value and number of digits of a run of digits. *)
Fixpoint digits (l : list ascii) (acc : Z) (len : nat) : option (Z * nat) :=
  match l with
  | [] => Some (acc, len)
  | c :: l' =>
      match digit c with
      | Some d => digits l' (10 * acc + d)%Z (S len)
      | None => None
      end
  end.

Fixpoint split_point (l : list ascii) : list ascii * option (list ascii) :=
  match l with
  | [] => ([], None)
  | c :: l' =>
      if Ascii.eqb c "."%char then ([], Some l')
      else let (a, b) := split_point l' in (c :: a, b)
  end.

Definition unsigned (l : list ascii) : option Q :=
  let (ip, fp) := split_point l in
  match digits ip 0 0, digits (match fp with Some f => f | None => [] end) 0 0 with
  | Some (i, li), Some (f, lf) =>
      if (li + lf =? 0)%nat then None
      else Some (Qred (Qmake (i * 10 ^ Z.of_nat lf + f)
                              (Z.to_pos (10 ^ Z.of_nat lf))))
  | _, _ => None
  end.

Definition parse (s : string) : option Q :=
  match list_ascii_of_string s with
  | "-"%char :: l => option_map Qopp (unsigned l)
  | "+"%char :: l => unsigned l
  | l => unsigned l
  end.

End Decimal.

(** ** Sorting and dictionaries *)

Section InsertionSort.

Variable A : Type.
Variable leb : A -> A -> bool.

(** [x] goes after the elements that are not above it: equal keys keep
    their order of arrival. *)
Fixpoint insert_sorted (x : A) (l : list A) : list A :=
  match l with
  | [] => [x]
  | y :: l' => if leb y x then y :: insert_sorted x l' else x :: l
  end.

Definition insertion_sort (l : list A) : list A :=
  fold_left (fun acc x => insert_sorted x acc) l [].

End InsertionSort.

(** Keys in ascending order of their characters, as [groupby] and an outer
    [merge] list them. *)
Definition sort_strings (l : list string) : list string :=
  insertion_sort String.leb l.

Definition unique_sorted (l : list string) : list string :=
  sort_strings (nodup string_dec l).

Module Dict.

Definition t (V : Type) : Type := list (string * V).

(** [d[k] = v]: an existing key keeps its place. *)
Fixpoint set (V : Type) (k : string) (v : V) (d : t V) : t V :=
  match d with
  | [] => [(k, v)]
  | (k', v') :: d' =>
      if String.eqb k' k then (k, v) :: d' else (k', v') :: set k v d'
  end.

Fixpoint get (V : Type) (d : t V) (k : string) : option V :=
  match d with
  | [] => None
  | (k', v') :: d' => if String.eqb k' k then Some v' else get d' k
  end.

(** [d.get(k, default)]. *)
Definition get_default (V : Type) (d : t V) (k : string) (default : V) : V :=
  match get d k with
  | Some v => v
  | None => default
  end.

(** [{name: f(name) for name in names}]. *)
Definition comprehension (V : Type) (names : list string) (f : string -> V)
  : t V :=
  fold_left (fun d name => set name (f name) d) names [].

Definition keys (V : Type) (d : t V) : list string := map fst d.
Definition values (V : Type) (d : t V) : list V := map snd d.

End Dict.

(** ** Configuration *)

Definition CODE_COL : string := "代码".
Definition WEIGHT_COL : string := "估算权重".

(** The two forms of [ETF_WEIGHTS]. *)
Inductive Setting : Type :=
| Equal
| Explicit (weights : Dict.t Q).

(** ** Reading one file *)

(** A frame as read from a file: header and cells of each column. *)
Definition DataFrame : Type := list (string * list string).

Definition has_column (df : DataFrame) (name : string) : bool :=
  existsb (fun c => String.eqb (fst c) name) df.

Definition column (df : DataFrame) (name : string) : list string :=
  match find (fun c => String.eqb (fst c) name) df with
  | Some c => snd c
  | None => []
  end.

(** One fund's cleaned table: code and weight, in row order. *)
Definition Table : Type := list (string * Q).

Definition rows_with (V : Type) (k : string) (rows : list (string * V))
  : list (string * V) :=
  filter (fun r => String.eqb (fst r) k) rows.

(** [out[(out[CODE_COL] != "") & (out[WEIGHT_COL] > 0)]]. *)
Definition keep_row (r : string * Q) : bool :=
  negb (String.eqb (fst r) "") && Qgtb (snd r) 0.

(** [out.groupby(CODE_COL, as_index=False)[WEIGHT_COL].sum()]. *)
Definition groupby_sum (out : Table) : Table :=
  map (fun k => (k, sumQ (map snd (rows_with k out))))
      (unique_sorted (map fst out)).

(** A member of a zip archive; [data] is [None] when reading it back
    raises. *)
Record ZipItem : Type := { filename : string; data : option string }.

(** A file of the data folder, with what the readers make of it:
    [direct_read] is the frame [pd.read_csv] or [pd.read_excel] returns for
    the path ([None] when it raises), [archive] the members that
    [zipfile.ZipFile] lists ([None] when the file does not open as an
    archive). *)
Record SourceFile : Type := {
  stem : string;
  direct_read : option DataFrame;
  archive : option (list ZipItem)
}.

(** Temporary files present, and the name the next one gets. *)
Record FileSystem : Type := { temp_files : list nat; next_temp : nat }.

Inductive result (A : Type) : Type :=
| Ok (a : A)
| Raised.
Arguments Raised {A}.

Definition create_temp (fs : FileSystem) : nat * FileSystem :=
  (next_temp fs,
   {| temp_files := next_temp fs :: temp_files fs;
      next_temp := S (next_temp fs) |}).

Definition remove_temp (p : nat) (fs : FileSystem) : FileSystem :=
  {| temp_files := filter (fun q => negb (Nat.eqb q p)) (temp_files fs);
     next_temp := next_temp fs |}.

Definition skipped_member (name : string) : bool :=
  String.eqb name "xl/styles.xml" || String.prefix "xl/theme" name.

(** The loop over [zin.infolist()]: members written so far, or the
    exception of the first member that cannot be read. *)
Fixpoint copy_members (items : list ZipItem) (zout : list (string * string))
  : result (list (string * string)) :=
  match items with
  | [] => Ok zout
  | item :: rest =>
      if skipped_member (filename item) then copy_members rest zout
      else match data item with
           | Some bytes => copy_members rest (zout ++ [(filename item, bytes)])
           | None => Raised
           end
  end.

Section Reader.

(** [pd.read_excel] on a rebuilt archive; [None] when it raises. *)
Variable read_excel : list (string * string) -> option DataFrame.
(** Whether [os.remove] succeeds on a temporary file. *)
Variable os_remove_ok : nat -> bool.
Variable to_numeric : string -> option Q.

Definition _read_xlsx_without_styles (f : SourceFile) (fs : FileSystem)
  : result DataFrame * FileSystem :=
  match archive f with
  | None => (Raised, fs)
  | Some items =>
      let (tmp_path, fs1) := create_temp fs in
      match copy_members items [] with
      | Raised => (Raised, fs1)
      | Ok zout =>
          let r := read_excel zout in
          let fs2 := if os_remove_ok tmp_path then remove_temp tmp_path fs1
                     else fs1 in
          (match r with Some df => Ok df | None => Raised end, fs2)
      end
  end.

(** Lines 86 to 93 of [read_one], on the two selected columns. *)
Definition clean_table (codes weights : list string) : Table :=
  let out := combine (_normalize_code codes) (_to_fraction to_numeric weights) in
  let out := filter keep_row out in
  groupby_sum out.

Definition read_one (f : SourceFile) (fs : FileSystem)
  : option Table * FileSystem :=
  let (df, fs') :=
    match direct_read f with
    | Some df => (Some df, fs)
    | None =>
        match _read_xlsx_without_styles f fs with
        | (Ok df, fs') => (Some df, fs')
        | (Raised, fs') => (None, fs')
        end
    end in
  match df with
  | None => (None, fs')
  | Some df =>
      if negb (has_column df CODE_COL) || negb (has_column df WEIGHT_COL)
      then (None, fs')
      else (Some (clean_table (column df CODE_COL) (column df WEIGHT_COL)), fs')
  end.

Definition load_all (files : list SourceFile) (fs : FileSystem)
  : Dict.t Table * FileSystem :=
  fold_left
    (fun (st : Dict.t Table * FileSystem) p =>
       let (tables, fs) := st in
       match read_one p fs with
       | (Some (r :: df), fs') => (Dict.set (stem p) (r :: df) tables, fs')
       | (_, fs') => (tables, fs')
       end)
    files ([], fs).

(** The order of §4.3 of the specification: duplicates summed first, rows
    with an empty code or a weight that is not positive dropped after. *)
Definition clean_table_sum_first (codes weights : list string) : Table :=
  let out := combine (_normalize_code codes) (_to_fraction to_numeric weights) in
  filter keep_row (groupby_sum out).

End Reader.

(** ** Weight scheme resolver *)

Inductive error : Type := InvalidWeightingScheme.

Definition normalize_weights (etf_names : list string) (setting : Setting)
  : error + Dict.t Q :=
  match setting with
  | Equal =>
      let n := match List.length etf_names with O => 1%nat | n => n end in
      inr (Dict.comprehension etf_names (fun _ => 1 / inject_Z (Z.of_nat n)))
  | Explicit weights =>
      let w := Dict.comprehension etf_names
                 (fun name => Dict.get_default weights name 0) in
      let s := sumQ (Dict.values w) in
      if Qle_bool s 0 then inl InvalidWeightingScheme
      else inr (map (fun kv => (fst kv, snd kv / s)) w)
  end.

(** ** Aggregator *)

(** The frame under construction: a code and one cell per fund merged so
    far, [None] where the join left the cell empty. *)
Definition Merged : Type := list (string * list (option Q)).

(** The rows of an outer merge for one key. *)
Definition join_key (width : nat) (left : Merged) (right : Table) (k : string)
  : Merged :=
  match rows_with k left, rows_with k right with
  | [], rs => map (fun r => (k, repeat None width ++ [Some (snd r)])) rs
  | ls, [] => map (fun l => (k, snd l ++ [None])) ls
  | ls, rs =>
      flat_map (fun l => map (fun r => (k, snd l ++ [Some (snd r)])) rs) ls
  end.

(** [pd.merge(left, right, how="outer", on=CODE_COL)]: the union of the
    keys in ascending order, and for each key every pairing of its rows. *)
Definition merge_outer (width : nat) (left : Merged) (right : Table) : Merged :=
  flat_map (join_key width left right)
           (unique_sorted (map fst left ++ map fst right)).

Definition first_frame (df : Table) : Merged :=
  map (fun r => (fst r, [Some (snd r)])) df.

(** The merging loop; [merged] is [None] before the first table. *)
Fixpoint merge_loop (merged : option Merged) (width : nat)
  (tables : Dict.t Table) : option Merged :=
  match tables with
  | [] => merged
  | (name, df) :: rest =>
      let merged' := match merged with
                     | None => first_frame df
                     | Some m => merge_outer width m df
                     end in
      merge_loop (Some merged') (S width) rest
  end.

Record PortfolioRow : Type := {
  code : string;
  total_weight : Q;
  appear_in : nat;
  fund_weights : list Q
}.

(** [total_weight]: starts at 0 and adds column times fund weight, column
    by column. *)
Definition weighted_total (w : Dict.t Q) (etf_cols : list string)
  (cells : list Q) : Q :=
  fold_left (fun acc cx => acc + snd cx * Dict.get_default w (fst cx) 0)
            (combine etf_cols cells) 0.

(** [(merged[etf_cols] > 0).sum(axis=1)]. *)
Definition positive_count (cells : list Q) : nat :=
  List.length (filter (fun x => Qgtb x 0) cells).

Definition make_row (w : Dict.t Q) (etf_cols : list string)
  (r : string * list (option Q)) : PortfolioRow :=
  let cells := map fillna0 (snd r) in
  {| code := fst r;
     total_weight := weighted_total w etf_cols cells;
     appear_in := positive_count cells;
     fund_weights := cells |}.

(** The rows before the final sort. *)
Definition joined_rows (w : Dict.t Q) (tables : Dict.t Table)
  : list PortfolioRow :=
  match merge_loop None 0 tables with
  | None => []
  | Some merged => map (make_row w (Dict.keys tables)) merged
  end.

Definition total_weight_geb (a b : PortfolioRow) : bool :=
  Qle_bool (total_weight b) (total_weight a).

Section Aggregator.

(** [sort_values("total_weight", ascending=False)] with the default
    [kind]. *)
Variable sort_values : list PortfolioRow -> list PortfolioRow.

(** The part of [combine_weighted] that follows the resolution of the
    fund weights. *)
Definition aggregate (w : Dict.t Q) (tables : Dict.t Table)
  : list PortfolioRow :=
  sort_values (joined_rows w tables).

Definition combine_weighted (ETF_WEIGHTS : Setting) (tables : Dict.t Table)
  : error + list PortfolioRow :=
  match tables with
  | [] => inr []
  | _ :: _ =>
      let etf_names := Dict.keys tables in
      match normalize_weights etf_names ETF_WEIGHTS with
      | inl e => inl e
      | inr w => inr (aggregate w tables)
      end
  end.

End Aggregator.


(** Two sorts that meet the contract: one keeps rows of equal key in their
    order, the other reverses them. *)
Definition sort_keep_ties (l : list PortfolioRow) : list PortfolioRow :=
  insertion_sort total_weight_geb l.



(** ** What the specification speaks of *)






(** ** Notions used in the statements *)

(** A cell that holds a number. *)
Definition parsed (o : option Q) : bool :=
  match o with
  | Some _ => true
  | None => false
  end.

(** Two tables with the same codes in the same order and equal weights. *)
Definition same_rows (a b : Table) : Prop :=
  Forall2 (fun x y => fst x = fst y /\ snd x == snd y) a b.

(** Temporary files in use are older than the next one. *)
Definition fresh_names (fs : FileSystem) : Prop :=
  Forall (fun p => (p < next_temp fs)%nat) (temp_files fs).

(** The cell of code [k] in a fund's column: its weight in the fund's
    table, or the empty cell the join leaves. *)
Definition cell_in (k : string) (df : Table) : option Q :=
  match rows_with k df with
  | r :: _ => Some (snd r)
  | [] => None
  end.





(** ** Sample inputs *)

(** A workbook that opens as an archive, with a sheet whose bytes cannot
    be read back. *)
Definition corrupt_workbook : SourceFile :=
  {| stem := "510050";
     direct_read := None;
     archive := Some [ {| filename := "xl/styles.xml"; data := None |};
                       {| filename := "xl/workbook.xml"; data := Some "wb" |};
                       {| filename := "xl/worksheets/sheet1.xml"; data := None |} ] |}.

Definition no_temp_files : FileSystem := {| temp_files := []; next_temp := 0 |}.



(** Two funds under the equal scheme. *)
Definition scenario_tables : Dict.t Table :=
  [("fund1", [("X", 6 # 10); ("Y", 4 # 10)]);
   ("fund2", [("X", 3 # 10); ("Y", 7 # 10); ("Z", 1 # 10)])].

Definition scenario_weights : Dict.t Q := [("fund1", 1 # 2); ("fund2", 1 # 2)].

(** A folder with a readable file, a corrupt workbook and a file
    without the configured headers. *)
Definition demo_files : list SourceFile :=
  [ {| stem := "159338";
       direct_read := Some [(CODE_COL, ["600519"; "000001 "; "600519"; ""]);
                            (WEIGHT_COL, ["2%"; "95"; "3"; "n/a"])];
       archive := None |};
    corrupt_workbook;
    {| stem := "588000";
       direct_read := Some [("name", ["x"])];
       archive := None |} ].

(** A workbook whose style and theme parts are damaged, the rest being
    readable. *)
Definition restyled_workbook : SourceFile :=
  {| stem := "159915";
     direct_read := None;
     archive := Some [ {| filename := "xl/styles.xml"; data := None |};
                       {| filename := "xl/theme/theme1.xml"; data := Some "t" |};
                       {| filename := "xl/workbook.xml"; data := Some "wb" |} ] |}.

(** Three files that bear the same stem; the last one has no row of
    positive weight. *)
Definition same_stem_files : list SourceFile :=
  [ {| stem := "510300";
       direct_read := Some [(CODE_COL, ["600000"]); (WEIGHT_COL, ["40"])];
       archive := None |};
    {| stem := "510300";
       direct_read := Some [(CODE_COL, ["600519"; "000001"]);
                            (WEIGHT_COL, ["0.6"; "0.4"])];
       archive := None |};
    {| stem := "510300";
       direct_read := Some [(CODE_COL, ["600036"]); (WEIGHT_COL, ["0"])];
       archive := None |} ].

(** ** Driver *)

Definition TOPN : nat := 20.

(** What [main] leaves behind: nothing when no table was read, the
    exception of the weight scheme, or the frame written to [OUTPUT_CSV]
    together with the rows shown on the console. *)
Inductive Outcome : Type :=
| NoValidTables
| Failed (e : error)
| Saved (csv shown : list PortfolioRow).

Section Driver.

Variable read_excel : list (string * string) -> option DataFrame.
Variable os_remove_ok : nat -> bool.
Variable to_numeric : string -> option Q.
Variable sort_values : list PortfolioRow -> list PortfolioRow.
Variable ETF_WEIGHTS : Setting.

Definition main (files : list SourceFile) (fs : FileSystem)
  : Outcome * FileSystem :=
  let (tables, fs') := load_all read_excel os_remove_ok to_numeric files fs in
  match tables with
  | [] => (NoValidTables, fs')
  | _ :: _ =>
      match combine_weighted sort_values ETF_WEIGHTS tables with
      | inl e => (Failed e, fs')
      | inr result =>
          let topn := Nat.min TOPN (List.length result) in
          (Saved result (firstn topn result), fs')
      end
  end.

(** The table [read_one] makes of a file, whatever the file system. *)
Definition table_of (f : SourceFile) : option Table :=
  fst (read_one read_excel os_remove_ok to_numeric f no_temp_files).

(** A file that [load_all] keeps under the name [name]. *)
Definition kept_as (name : string) (f : SourceFile) : bool :=
  String.eqb (stem f) name &&
  match table_of f with
  | Some (_ :: _) => true
  | _ => false
  end.

End Driver.

(** ** Notions used in the further properties *)

(** The members of an archive that the recovery read copies. *)
Definition kept_members (items : list ZipItem) : list ZipItem :=
  filter (fun item => negb (skipped_member (filename item))) items.




Definition all_space (s : string) : Prop :=
  Forall (fun c => PyStr.isspace c = true) (list_ascii_of_string s).

(** * Properties *)

(** ** Code normalisation *)

Module PyStrFacts.
Import PyStr.

Lemma lstrip_length l : (List.length (lstrip l) <= List.length l)%nat.
Proof.
  induction l as [|c l IH]; simpl; [lia|].
  destruct (isspace c); simpl; lia.
Qed.

Lemma lstrip_fixed l : lstrip l = l <-> starts_space l = false.
Proof.
  destruct l as [|c l]; simpl; [tauto|].
  destruct (isspace c) eqn:E; split; intro H; try reflexivity; try discriminate.
  exfalso. pose proof (lstrip_length l) as Hl.
  rewrite H in Hl. simpl in Hl. lia.
Qed.

Lemma lstrip_starts l : starts_space (lstrip l) = false.
Proof.
  induction l as [|c l IH]; simpl; [reflexivity|].
  destruct (isspace c) eqn:E; [exact IH|]. simpl. exact E.
Qed.

Lemma lstrip_same_length l :
  List.length (lstrip l) = List.length l -> lstrip l = l.
Proof.
  destruct l as [|c l]; simpl; [reflexivity|].
  destruct (isspace c); [|reflexivity].
  intro H. pose proof (lstrip_length l). lia.
Qed.

(** Stripping on the left stops at the first character that is not a
    space. *)
Lemma lstrip_app_nonspace a c b :
  isspace c = false -> exists a', lstrip (a ++ c :: b) = a' ++ c :: b.
Proof.
  intro Hc. induction a as [|x a IH]; simpl.
  - rewrite Hc. now exists [].
  - destruct (isspace x).
    + exact IH.
    + now exists (x :: a).
Qed.

Lemma ends_space_rev l : ends_space l = starts_space (rev l).
Proof. reflexivity. Qed.

Lemma rstrip_length l : (List.length (rstrip l) <= List.length l)%nat.
Proof.
  unfold rstrip. rewrite length_rev.
  pose proof (lstrip_length (rev l)) as H. now rewrite length_rev in H.
Qed.

Lemma rstrip_ends l : ends_space (rstrip l) = false.
Proof.
  unfold rstrip. rewrite ends_space_rev, rev_involutive. apply lstrip_starts.
Qed.

Lemma rstrip_fixed l : rstrip l = l <-> ends_space l = false.
Proof.
  rewrite ends_space_rev, <- lstrip_fixed. unfold rstrip. split; intro H.
  - rewrite <- H at 2. now rewrite rev_involutive.
  - rewrite H. apply rev_involutive.
Qed.

Lemma rstrip_same_length l :
  List.length (rstrip l) = List.length l -> rstrip l = l.
Proof.
  unfold rstrip. rewrite length_rev. intro H.
  rewrite lstrip_same_length; [apply rev_involutive|].
  now rewrite H, length_rev.
Qed.

Lemma rstrip_starts l : starts_space l = false -> starts_space (rstrip l) = false.
Proof.
  destruct l as [|c l]; [reflexivity|]. simpl. intro Hc.
  unfold rstrip. simpl rev.
  destruct (@lstrip_app_nonspace (rev l) c [] Hc) as [a' Ha'].
  rewrite Ha', rev_app_distr. simpl. exact Hc.
Qed.

Lemma strip_starts l : starts_space (strip l) = false.
Proof. apply rstrip_starts, lstrip_starts. Qed.

Lemma strip_ends l : ends_space (strip l) = false.
Proof. apply rstrip_ends. Qed.

Lemma strip_length l : (List.length (strip l) <= List.length l)%nat.
Proof.
  unfold strip. pose proof (rstrip_length (lstrip l)).
  pose proof (lstrip_length l). lia.
Qed.

Lemma strip_fixed l :
  strip l = l <-> starts_space l = false /\ ends_space l = false.
Proof.
  split.
  - intro H. rewrite <- H. split; [apply strip_starts | apply strip_ends].
  - intros [Hs He]. unfold strip.
    apply lstrip_fixed in Hs. rewrite Hs. now apply rstrip_fixed.
Qed.

Lemma strip_same_length l :
  List.length (strip l) = List.length l -> strip l = l.
Proof.
  intro H. unfold strip in *.
  pose proof (rstrip_length (lstrip l)). pose proof (lstrip_length l).
  assert (Hl : lstrip l = l) by (apply lstrip_same_length; lia).
  rewrite Hl in *. now apply rstrip_same_length.
Qed.

Lemma list_eqb_true a b : list_eqb a b = true <-> a = b.
Proof. unfold list_eqb. destruct (list_eq_dec ascii_dec a b); intuition congruence. Qed.

Lemma list_eqb_false a b : list_eqb a b = false <-> a <> b.
Proof. unfold list_eqb. destruct (list_eq_dec ascii_dec a b); intuition congruence. Qed.

Lemma ends_dot0_app y : ends_dot0 (y ++ [dot; zero]) = true.
Proof. unfold ends_dot0. rewrite rev_app_distr. reflexivity. Qed.

Lemma ends_dot0_inv l : ends_dot0 l = true -> exists y, l = y ++ [dot; zero].
Proof.
  unfold ends_dot0. destruct (rev l) as [|a [|b r]] eqn:E; try discriminate.
  intro H. apply andb_true_iff in H as [Ha Hb].
  apply Ascii.eqb_eq in Ha, Hb. subst a b.
  exists (rev r). rewrite <- (rev_involutive l), E. simpl.
  now rewrite <- app_assoc.
Qed.

Lemma sub_dot0_length l : (List.length (sub_dot0 l) <= List.length l)%nat.
Proof.
  induction l as [|c l IH]; [simpl; lia|].
  cbn [sub_dot0].
  destruct (list_eqb (c :: l) [dot; zero]); [simpl; lia|].
  destruct (list_eqb (c :: l) [dot; zero; newline]) eqn:E; [|simpl; lia].
  simpl; lia.
Qed.

(** A match of the pattern at the end of the string is removed. *)
Lemma sub_dot0_app y : sub_dot0 (y ++ [dot; zero]) = y.
Proof.
  induction y as [|c y IH]; [reflexivity|].
  rewrite <- app_comm_cons. cbn [sub_dot0].
  assert (H1 : list_eqb (c :: y ++ [dot; zero]) [dot; zero] = false).
  { apply list_eqb_false. intro H. apply (f_equal (@List.length _)) in H.
    simpl in H. rewrite length_app in H. simpl in H. lia. }
  assert (H2 : list_eqb (c :: y ++ [dot; zero]) [dot; zero; newline] = false).
  { apply list_eqb_false. intro H. destruct y as [|d [|e y]]; try discriminate.
    apply (f_equal (@List.length _)) in H.
    simpl in H. rewrite length_app in H. simpl in H. lia. }
  rewrite H1, H2, IH. reflexivity.
Qed.

(** Without a match the string is returned as it is. *)
Lemma sub_dot0_no_match l :
  ends_dot0 l = false -> ends_space l = false -> sub_dot0 l = l.
Proof.
  induction l as [|c l IH]; [reflexivity|]. intros Hd Hs.
  cbn [sub_dot0].
  destruct (list_eqb (c :: l) [dot; zero]) eqn:E1.
  { apply list_eqb_true in E1. rewrite E1 in Hd. discriminate. }
  destruct (list_eqb (c :: l) [dot; zero; newline]) eqn:E2.
  { apply list_eqb_true in E2. rewrite E2 in Hs. discriminate. }
  destruct l as [|d l]; [reflexivity|].
  rewrite IH; [reflexivity| |].
  - destruct (ends_dot0 (d :: l)) eqn:E; [|reflexivity].
    apply ends_dot0_inv in E as [y Hy].
    rewrite Hy, app_comm_cons, ends_dot0_app in Hd. discriminate.
  - unfold ends_space in *. simpl rev in *.
    destruct (rev l ++ [d]) as [|x r] eqn:E.
    + destruct (rev l); discriminate.
    + simpl in Hs. exact Hs.
Qed.

Lemma sub_dot0_fixed l : sub_dot0 l = l -> ends_dot0 l = false.
Proof.
  intro H. destruct (ends_dot0 l) eqn:E; [|reflexivity].
  apply ends_dot0_inv in E as [y Hy]. subst l.
  rewrite sub_dot0_app in H. apply (f_equal (@List.length _)) in H.
  rewrite length_app in H. simpl in H. lia.
Qed.

Lemma normalize_starts l : starts_space (normalize_code_chars l) = false.
Proof.
  unfold normalize_code_chars.
  pose proof (strip_starts l) as Hs. pose proof (strip_ends l) as He.
  destruct (ends_dot0 (strip l)) eqn:E.
  - apply ends_dot0_inv in E as [y Hy]. rewrite Hy in *.
    rewrite sub_dot0_app. destruct y; [reflexivity | exact Hs].
  - now rewrite sub_dot0_no_match.
Qed.

(** A normalised code is left alone exactly when it ends neither in
    white space nor in [".0"]. *)
Lemma normalize_chars_fixed t :
  starts_space t = false ->
  (normalize_code_chars t = t <-> ends_space t = false /\ ends_dot0 t = false).
Proof.
  intro Hs. unfold normalize_code_chars. split.
  - intro H.
    pose proof (sub_dot0_length (strip t)) as H1.
    pose proof (strip_length t) as H2.
    assert (Hst : strip t = t) by (apply strip_same_length; rewrite H in H1; lia).
    rewrite Hst in H. split.
    + now apply strip_fixed in Hst.
    + now apply sub_dot0_fixed.
  - intros [He Hd].
    assert (Hst : strip t = t) by (now apply strip_fixed).
    rewrite Hst. now apply sub_dot0_no_match.
Qed.

End PyStrFacts.

Example normalize_code_float : _normalize_code_cell " 600519.0 " = "600519".
Proof. reflexivity. Qed.

Example normalize_code_plain : _normalize_code [" 000001"; "510050.0"] = ["000001"; "510050"].
Proof. reflexivity. Qed.

(** C6, as the specification states it, fails: a code that ends in [".0"]
    twice loses one suffix at each pass, so the second pass changes the
    result of the first. *)
Lemma normalize_code_not_idempotent :
  _normalize_code_cell "1.0.0" = "1.0" /\
  _normalize_code_cell (_normalize_code_cell "1.0.0") = "1" /\
  ~ (forall s, _normalize_code_cell (_normalize_code_cell s) = _normalize_code_cell s).
Proof.
  split; [reflexivity|]. split; [reflexivity|].
  intro H. specialize (H "1.0.0"). vm_compute in H. discriminate.
Qed.

(** C6, amended: normalising the result of a normalisation returns it
    unchanged exactly when that result does not itself end in white space
    or in [".0"]. *)
Theorem normalize_code_idempotent_iff (s : string) :
  _normalize_code_cell (_normalize_code_cell s) = _normalize_code_cell s
  <->
  PyStr.ends_space (list_ascii_of_string (_normalize_code_cell s)) = false /\
  PyStr.ends_dot0 (list_ascii_of_string (_normalize_code_cell s)) = false.
Proof.
  unfold _normalize_code_cell.
  rewrite !list_ascii_of_string_of_list_ascii.
  set (t := normalize_code_chars (list_ascii_of_string s)).
  rewrite <- (@PyStrFacts.normalize_chars_fixed t).
  - split; intro H; [|now rewrite H].
    apply (f_equal list_ascii_of_string) in H.
    now rewrite !list_ascii_of_string_of_list_ascii in H.
  - apply PyStrFacts.normalize_starts.
Qed.

(** ** Weight normalisation *)

Lemma Qgtb_true x y : Qgtb x y = true <-> y < x.
Proof.
  unfold Qgtb. rewrite negb_true_iff. split; intro H.
  - apply Qnot_le_lt. intro Hle. apply Qle_bool_iff in Hle. congruence.
  - destruct (Qle_bool x y) eqn:E; [|reflexivity].
    apply Qle_bool_iff in E. exfalso. apply (Qlt_not_le _ _ H E).
Qed.

Lemma Qgtb_false x y : Qgtb x y = false <-> x <= y.
Proof.
  unfold Qgtb. rewrite negb_false_iff. apply Qle_bool_iff.
Qed.

(** [col_max] is the greatest of the parsed values, and is missing only
    when nothing parsed. *)
Lemma col_max_some l m :
  col_max l = Some m ->
  In (Some m) l /\ forall v, In (Some v) l -> v <= m.
Proof.
  revert m. induction l as [|x l IH]; intros m H; [discriminate|].
  simpl in H. destruct x as [v|].
  - destruct (col_max l) as [m'|] eqn:E.
    + destruct (IH m' eq_refl) as [Hin Hmax].
      injection H as H. destruct (Qle_bool m' v) eqn:Ev; subst m.
      * apply Qle_bool_iff in Ev. split; [now left|].
        intros u [Hu|Hu]; [injection Hu as ->; apply Qle_refl|].
        eapply Qle_trans; [apply Hmax, Hu | exact Ev].
      * split; [now right|].
        intros u [Hu|Hu]; [injection Hu as <-|now apply Hmax].
        apply Qlt_le_weak, Qgtb_true. unfold Qgtb. now rewrite Ev.
    + injection H as ->. split; [now left|].
      intros u [Hu|Hu]; [injection Hu as ->; apply Qle_refl|].
      exfalso. clear IH. induction l as [|y l IHl]; [destruct Hu|].
      simpl in E. destruct y as [w|]; [destruct (col_max l); discriminate|].
      destruct Hu as [Hu|Hu]; [discriminate|]. now apply IHl.
  - destruct (IH m H) as [Hin Hmax]. split; [now right|].
    intros u [Hu|Hu]; [discriminate|now apply Hmax].
Qed.

Lemma col_max_none l : col_max l = None -> forall v, ~ In (Some v) l.
Proof.
  induction l as [|x l IH]; intros H v Hin; [destruct Hin|].
  simpl in H. destruct x as [w|]; [destruct (col_max l); discriminate|].
  destruct Hin as [Hin|Hin]; [discriminate|]. now apply (IH H v).
Qed.

(** The decision of [scale_column], read off the cells. *)
Lemma scale_column_scaled p v :
  In (Some v) p -> 1 < v ->
  scale_column p = map (option_map (fun x => x / 100)) p.
Proof.
  intros Hin Hv. unfold scale_column.
  destruct (col_max p) as [m|] eqn:E.
  - destruct (col_max_some _ E) as [_ Hmax].
    assert (Hm : Qgtb m 1 = true).
    { apply Qgtb_true. eapply Qlt_le_trans; [exact Hv | now apply Hmax]. }
    now rewrite Hm.
  - exfalso. exact (col_max_none _ E v Hin).
Qed.

Lemma scale_column_unscaled p :
  (forall v, In (Some v) p -> v <= 1) -> scale_column p = p.
Proof.
  intro H. unfold scale_column.
  destruct (col_max p) as [m|] eqn:E; [|reflexivity].
  destruct (col_max_some _ E) as [Hin _].
  assert (Hm : Qgtb m 1 = false) by (apply Qgtb_false; now apply H).
  now rewrite Hm.
Qed.

Lemma col_max_skips_unparsed p : col_max (filter parsed p) = col_max p.
Proof.
  induction p as [|x p IH]; [reflexivity|].
  destruct x as [v|]; simpl; now rewrite IH.
Qed.

Example to_fraction_percent :
  Forall2 Qeq (_to_fraction Decimal.parse ["12.5%"]) [125 # 1000].
Proof. repeat constructor. Qed.

Example to_fraction_whole_percents :
  Forall2 Qeq (_to_fraction Decimal.parse ["45"; "55"]) [45 # 100; 55 # 100].
Proof. repeat constructor. Qed.

Lemma Qdiv100_unit v : 0 <= v /\ v <= 100 <-> 0 <= v / 100 /\ v / 100 <= 1.
Proof.
  assert (E : v == v / 100 * 100) by field.
  set (x := v / 100) in *. split; intros [H0 H1]; split; lra.
Qed.

(** C2, as the specification states it, fails: a raw value above 100 is
    still divided by 100 only, and leaves the unit interval. *)
Lemma to_fraction_not_in_unit_interval :
  Forall2 Qeq (_to_fraction Decimal.parse ["150"; "50"]) [3 # 2; 1 # 2] /\
  ~ (forall (to_numeric : string -> option Q) (s : list string),
        Forall (fun x => 0 <= x /\ x <= 1) (_to_fraction to_numeric s)).
Proof.
  split; [repeat constructor|].
  intro H. specialize (H Decimal.parse ["150"; "50"]).
  apply Forall_inv in H. destruct H as [_ H]. vm_compute in H. now apply H.
Qed.

(** C2, amended: the normalised values lie in [0, 1] exactly when every
    parsed value of the column lies in [0, 100]; when some parsed value
    exceeds 1, every value of the column is divided by 100; an unparseable
    cell becomes 0, and no cell is an error. *)
Theorem to_fraction_range_and_scaling
  (to_numeric : string -> option Q) (s : list string) :
  (Forall (fun x => 0 <= x /\ x <= 1) (_to_fraction to_numeric s)
   <-> forall v, In (Some v) (parse_column to_numeric s) -> 0 <= v /\ v <= 100)
  /\
  ((exists v, In (Some v) (parse_column to_numeric s) /\ 1 < v) ->
   _to_fraction to_numeric s
   = map (fun o => fillna0 (option_map (fun x => x / 100) o))
         (parse_column to_numeric s))
  /\
  (List.length (_to_fraction to_numeric s) = List.length s /\
   forall i, nth_error (parse_column to_numeric s) i = Some None ->
             nth_error (_to_fraction to_numeric s) i = Some 0).
Proof.
  unfold _to_fraction. cbv zeta. set (p := parse_column to_numeric s).
  assert (Hcases :
    (scale_column p = map (option_map (fun x => x / 100)) p /\
     exists v, In (Some v) p /\ 1 < v) \/
    (scale_column p = p /\ forall v, In (Some v) p -> v <= 1)).
  { unfold scale_column. destruct (col_max p) as [m|] eqn:E.
    - destruct (col_max_some _ E) as [Hin Hmax].
      destruct (Qgtb m 1) eqn:Em.
      + left. split; [reflexivity|]. exists m. split; [exact Hin|].
        now apply Qgtb_true.
      + right. split; [reflexivity|]. intros v Hv.
        eapply Qle_trans; [now apply Hmax | now apply Qgtb_false].
    - right. split; [reflexivity|]. intros v Hv.
      exfalso. exact (col_max_none _ E v Hv). }
  split; [|split; [|split]].
  - rewrite Forall_forall. destruct Hcases as [[-> _] | [-> Hle]].
    + rewrite map_map. split.
      * intros H v Hv. apply Qdiv100_unit. apply (H (v / 100)).
        apply in_map_iff. exists (Some v); auto.
      * intros H x Hx. apply in_map_iff in Hx as [[v|] [<- Hv]]; simpl.
        -- now apply Qdiv100_unit, H.
        -- split; discriminate.
    + split.
      * intros H v Hv. destruct (H v) as [H0 H1].
        { apply in_map_iff. exists (Some v); auto. }
        split; [exact H0|]. eapply Qle_trans; [exact H1| discriminate].
      * intros H x Hx. apply in_map_iff in Hx as [[v|] [<- Hv]]; simpl.
        -- split; [now apply H | now apply Hle].
        -- split; discriminate.
  - intros [v [Hin Hv]]. rewrite (scale_column_scaled _ Hin Hv).
    now rewrite map_map.
  - destruct Hcases as [[-> _] | [-> _]]; unfold p, parse_column;
      now rewrite ?length_map.
  - intros i Hi. destruct Hcases as [[-> _] | [-> _]].
    + rewrite !nth_error_map, Hi. reflexivity.
    + rewrite nth_error_map, Hi. reflexivity.
Qed.

(** C9: unparseable cells have no part in the decision to divide by 100,
    which is taken on the greatest parsed value; a column whose parsed
    values are all at most 1 is left unscaled, its unparseable cells
    becoming 0. *)
Theorem to_fraction_ignores_unparseable
  (to_numeric : string -> option Q) (s : list string) :
  col_max (parse_column to_numeric s)
  = col_max (filter parsed (parse_column to_numeric s))
  /\
  scale_column (parse_column to_numeric s)
  = (if existsb (fun o => match o with Some v => Qgtb v 1 | None => false end)
                (parse_column to_numeric s)
     then map (option_map (fun x => x / 100)) (parse_column to_numeric s)
     else parse_column to_numeric s)
  /\
  ((forall v, In (Some v) (parse_column to_numeric s) -> v <= 1) ->
   _to_fraction to_numeric s = map fillna0 (parse_column to_numeric s)).
Proof.
  set (p := parse_column to_numeric s). split; [|split].
  - symmetry. apply col_max_skips_unparsed.
  - destruct (existsb _ p) eqn:E.
    + apply existsb_exists in E as [[v|] [Hin Hv]]; [|discriminate].
      apply Qgtb_true in Hv. exact (scale_column_scaled _ Hin Hv).
    + apply scale_column_unscaled. intros v Hv. apply Qgtb_false.
      destruct (Qgtb v 1) eqn:Ev; [|reflexivity].
      assert (Hex : existsb (fun o => match o with Some v => Qgtb v 1 | None => false end) p = true).
      { apply existsb_exists. exists (Some v). auto. }
      congruence.
  - intro H. unfold _to_fraction. cbv zeta. fold p.
    now rewrite scale_column_unscaled.
Qed.

Lemma to_fraction_ignores_unparseable_witness :
  _to_fraction Decimal.parse ["0.5"; "n/a"; "0.25"]
  = map fillna0 (parse_column Decimal.parse ["0.5"; "n/a"; "0.25"]).
Proof.
  apply (to_fraction_ignores_unparseable Decimal.parse ["0.5"; "n/a"; "0.25"]).
  intros v [H|[H|[H|[]]]]; try discriminate; injection H as <-; discriminate.
Defined.

Lemma to_fraction_range_and_scaling_witness :
  Forall (fun x => 0 <= x /\ x <= 1) (_to_fraction Decimal.parse ["45"; "55"; "-"]).
Proof.
  apply (to_fraction_range_and_scaling Decimal.parse ["45"; "55"; "-"]).
  intros v [H|[H|[H|[]]]]; try discriminate; injection H as <-;
    split; discriminate.
Defined.

(** ** Sums and dictionaries *)

Lemma fold_left_Qplus_acc l a : fold_left Qplus l a == a + sumQ l.
Proof.
  unfold sumQ. revert a. induction l as [|x l IH]; intro a; simpl.
  - ring.
  - rewrite (IH (a + x)), (IH (0 + x)). ring.
Qed.

Lemma sumQ_cons x l : sumQ (x :: l) == x + sumQ l.
Proof.
  unfold sumQ at 1. simpl. rewrite fold_left_Qplus_acc. ring.
Qed.

Lemma sumQ_app l1 l2 : sumQ (l1 ++ l2) == sumQ l1 + sumQ l2.
Proof.
  induction l1 as [|x l1 IH]; simpl.
  - unfold sumQ at 2. simpl. ring.
  - rewrite !sumQ_cons, IH. ring.
Qed.


Lemma sumQ_map_const (A : Type) (c : Q) (l : list A) :
  sumQ (map (fun _ => c) l) == inject_Z (Z.of_nat (List.length l)) * c.
Proof.
  induction l as [|a l IH].
  - unfold sumQ. simpl. ring.
  - cbn [map List.length]. rewrite sumQ_cons, IH, Nat2Z.inj_succ.
    unfold Z.succ. rewrite inject_Z_plus. ring.
Qed.

Lemma sumQ_nonneg l : Forall (fun x => 0 <= x) l -> 0 <= sumQ l.
Proof.
  induction 1 as [|x l Hx Hl IH].
  - unfold sumQ. simpl. apply Qle_refl.
  - rewrite sumQ_cons. lra.
Qed.

Module DictFacts.
Import Dict.

Section Facts.
Variable V : Type.
Implicit Types (d : Dict.t V) (k : string) (v : V).

Lemma set_fresh d k v :
  ~ In k (keys d) -> set k v d = d ++ [(k, v)].
Proof.
  induction d as [|[k' v'] d IH]; simpl; intro H; [reflexivity|].
  destruct (String.eqb_spec k' k) as [->|Hne]; [tauto|].
  rewrite IH; tauto.
Qed.

Lemma keys_app d1 d2 : keys (d1 ++ d2) = keys d1 ++ keys d2.
Proof. apply map_app. Qed.

Lemma comprehension_from (f : string -> V) names d :
  NoDup (keys d ++ names) ->
  fold_left (fun d name => set name (f name) d) names d
  = d ++ map (fun name => (name, f name)) names.
Proof.
  revert d. induction names as [|n names IH]; intros d H; simpl.
  - now rewrite app_nil_r.
  - rewrite set_fresh.
    + rewrite IH.
      * now rewrite <- app_assoc.
      * rewrite keys_app, <- app_assoc. exact H.
    + apply NoDup_remove_2 in H. intro Hin. apply H, in_or_app. now left.
Qed.

(** Over names that do not repeat, a comprehension lists them in order. *)
Lemma comprehension_nodup (f : string -> V) names :
  NoDup names ->
  comprehension names f = map (fun name => (name, f name)) names.
Proof.
  intro H. unfold comprehension. now rewrite comprehension_from.
Qed.

Lemma get_map_key (f : string -> V) names k :
  In k names -> get (map (fun name => (name, f name)) names) k = Some (f k).
Proof.
  induction names as [|n names IH]; intro H; [destruct H|]. simpl.
  destruct (String.eqb_spec n k) as [->|Hne]; [reflexivity|].
  destruct H as [H|H]; [contradiction|]. now apply IH.
Qed.

Lemma get_not_in d k : ~ In k (keys d) -> get d k = None.
Proof.
  induction d as [|[k' v'] d IH]; simpl; intro H; [reflexivity|].
  destruct (String.eqb_spec k' k) as [->|Hne]; [tauto|]. apply IH. tauto.
Qed.


(** Assignment keeps the keys distinct, and changes one entry. *)
Lemma keys_set_in d k v k' :
  In k' (keys (set k v d)) <-> k' = k \/ In k' (keys d).
Proof.
  induction d as [|[k0 v0] d IH]; simpl; [intuition congruence|].
  destruct (String.eqb_spec k0 k) as [->|Hne]; simpl; [intuition congruence|].
  rewrite IH. intuition congruence.
Qed.

Lemma set_nodup d k v : NoDup (keys d) -> NoDup (keys (set k v d)).
Proof.
  induction d as [|[k0 v0] d IH]; simpl; intro H.
  - constructor; [intros []|constructor].
  - destruct (String.eqb_spec k0 k) as [->|Hne]; [exact H|]. simpl.
    inversion H as [|? ? Hnin Hnd]; subst. constructor; [|now apply IH].
    rewrite keys_set_in. intros [->|Hin]; tauto.
Qed.

Lemma set_in d k v k' v' :
  In (k', v') (set k v d) -> (k' = k /\ v' = v) \/ In (k', v') d.
Proof.
  induction d as [|[k0 v0] d IH]; simpl.
  - intros [H|[]]. left. injection H as <- <-. auto.
  - destruct (String.eqb_spec k0 k) as [->|Hne]; simpl.
    + intros [H|H]; [left; injection H as <- <-; auto | right; now right].
    + intros [H|H]; [right; now left|].
      destruct (IH H) as [?|?]; [now left | right; now right].
Qed.

End Facts.
End DictFacts.

(** ** Weight scheme resolver *)

Example scheme_explicit_two :
  normalize_weights ["fundA"; "fundB"] (Explicit [("fundA", 2); ("fundB", 0)])
  = inr [("fundA", 2 / (0 + 2 + 0)); ("fundB", 0 / (0 + 2 + 0))].
Proof. reflexivity. Qed.

Example scheme_explicit_zero :
  normalize_weights ["fundA"; "fundB"] (Explicit [("fundA", 0)])
  = inl InvalidWeightingScheme.
Proof. reflexivity. Qed.



(** C7: under the equal scheme every one of the [N] loaded funds receives
    [1 / N], the weights sum to 1 when there is a fund, and with no fund
    the result is the empty mapping. *)
Theorem normalize_weights_equal (etf_names : list string) :
  NoDup etf_names ->
  exists w,
    normalize_weights etf_names Equal = inr w /\
    Dict.keys w = etf_names /\
    (forall name, In name etf_names ->
       Dict.get w name
       = Some (1 / inject_Z (Z.of_nat (List.length etf_names)))) /\
    (etf_names <> [] -> sumQ (Dict.values w) == 1) /\
    (etf_names = [] -> w = []).
Proof.
  intro Hnd. unfold normalize_weights.
  rewrite (DictFacts.comprehension_nodup _ Hnd).
  eexists. split; [reflexivity|]. split; [|split; [|split]].
  - unfold Dict.keys. rewrite map_map. cbn [fst]. apply map_id.
  - intros name Hin.
    rewrite (DictFacts.get_map_key _ _ _ Hin).
    destruct etf_names; [destruct Hin | reflexivity].
  - intro Hne. unfold Dict.values. rewrite map_map. cbn [snd].
    rewrite sumQ_map_const.
    destruct etf_names as [|n l]; [congruence|].
    cbn [List.length].
    set (N := inject_Z (Z.of_nat (S (List.length l)))).
    assert (HN : ~ N == 0).
    { unfold N. intro H. unfold Qeq in H. simpl in H. lia. }
    clearbody N. field. exact HN.
  - intros ->. reflexivity.
Qed.

Lemma normalize_weights_equal_witness :
  exists w,
    normalize_weights ["fund1"; "fund2"; "fund3"] Equal = inr w /\
    Dict.keys w = ["fund1"; "fund2"; "fund3"] /\
    (forall name, In name ["fund1"; "fund2"; "fund3"] ->
       Dict.get w name = Some (1 / inject_Z (Z.of_nat 3))) /\
    (["fund1"; "fund2"; "fund3"] <> [] -> sumQ (Dict.values w) == 1) /\
    (["fund1"; "fund2"; "fund3"] = [] -> w = []).
Proof.
  apply (@normalize_weights_equal ["fund1"; "fund2"; "fund3"]).
  repeat constructor; simpl; intuition discriminate.
Defined.

(** ** Insertion sort *)

Section InsertionSortFacts.

Variable A : Type.
Variable leb : A -> A -> bool.

Lemma insert_sorted_perm x l : Permutation (x :: l) (insert_sorted leb x l).
Proof.
  induction l as [|y l IH]; simpl; [reflexivity|].
  destruct (leb y x); [|reflexivity].
  rewrite perm_swap. now constructor.
Qed.

Lemma insertion_sort_from_perm l acc :
  Permutation (acc ++ l) (fold_left (fun acc x => insert_sorted leb x acc) l acc).
Proof.
  revert acc. induction l as [|x l IH]; intro acc; simpl.
  - now rewrite app_nil_r.
  - rewrite <- IH, <- insert_sorted_perm. simpl.
    symmetry. apply Permutation_middle.
Qed.

Lemma insertion_sort_perm l : Permutation l (insertion_sort leb l).
Proof. exact (insertion_sort_from_perm l []). Qed.

Lemma insertion_sort_in l x : In x (insertion_sort leb l) <-> In x l.
Proof.
  split; apply Permutation_in;
    [symmetry|]; apply insertion_sort_perm.
Qed.

Lemma insertion_sort_nodup l : NoDup l -> NoDup (insertion_sort leb l).
Proof. apply Permutation_NoDup, insertion_sort_perm. Qed.

Hypothesis leb_total : forall a b, leb a b = true \/ leb b a = true.
Hypothesis leb_trans :
  forall a b c, leb a b = true -> leb b c = true -> leb a c = true.

Let le (a b : A) : Prop := leb a b = true.

Lemma insert_sorted_sorted x l :
  StronglySorted le l -> StronglySorted le (insert_sorted leb x l).
Proof.
  induction 1 as [|y l Hl IH Hy]; simpl.
  - constructor; constructor.
  - destruct (leb y x) eqn:E.
    + constructor; [exact IH|].
      rewrite Forall_forall in *. intros z Hz.
      apply (Permutation_in _ (Permutation_sym (insert_sorted_perm x l))) in Hz.
      destruct Hz as [<-|Hz]; [exact E | now apply Hy].
    + assert (Hxy : le x y) by (destruct (leb_total x y); [assumption|congruence]).
      constructor; [now constructor|]. constructor; [exact Hxy|].
      rewrite Forall_forall in *. intros z Hz.
      eapply leb_trans; [exact Hxy | exact (Hy z Hz)].
Qed.

Lemma insertion_sort_sorted l : StronglySorted le (insertion_sort leb l).
Proof.
  unfold insertion_sort.
  assert (H : StronglySorted le []) by constructor.
  revert H. generalize (@nil A). induction l as [|x l IH]; intros acc H; simpl.
  - exact H.
  - apply IH. now apply insert_sorted_sorted.
Qed.

Hypothesis leb_antisym : forall a b, leb a b = true -> leb b a = true -> a = b.

(** Two sorted lists without repetition that hold the same elements are
    the same list. *)
Lemma sorted_nodup_unique l1 l2 :
  StronglySorted le l1 -> StronglySorted le l2 ->
  NoDup l1 -> NoDup l2 ->
  (forall x, In x l1 <-> In x l2) ->
  l1 = l2.
Proof.
  intros S1. revert l2. induction S1 as [|a l1 S1 IH H1]; intros l2 S2 N1 N2 Hin.
  - destruct l2 as [|b l2]; [reflexivity|].
    exfalso. apply (proj2 (Hin b)). now left.
  - destruct S2 as [|b l2 S2 H2].
    { exfalso. apply (proj1 (Hin a)). now left. }
    rewrite Forall_forall in H1, H2.
    inversion N1 as [|? ? Na N1']; inversion N2 as [|? ? Nb N2']; subst.
    assert (Hab : a = b).
    { destruct (proj1 (Hin a) (or_introl eq_refl)) as [Ha|Ha]; [now symmetry|].
      destruct (proj2 (Hin b) (or_introl eq_refl)) as [Hb|Hb]; [exact Hb|].
      apply leb_antisym; [apply H1, Hb | apply H2, Ha]. }
    subst b. f_equal. apply IH; try assumption.
    intro x. split; intro Hx.
    + destruct (proj1 (Hin x) (or_intror Hx)) as [<-|H]; [contradiction|exact H].
    + destruct (proj2 (Hin x) (or_intror Hx)) as [<-|H]; [contradiction|exact H].
Qed.

End InsertionSortFacts.

(** The order on codes. *)
Lemma string_leb_iff a b :
  String.leb a b = true <-> a = b \/ OrderedTypeEx.String_as_OT.lt a b.
Proof.
  unfold String.leb.
  destruct (String.compare a b) eqn:E.
  - apply OrderedTypeEx.String_as_OT.cmp_eq in E. intuition.
  - apply OrderedTypeEx.String_as_OT.cmp_lt in E. intuition.
  - split; [discriminate|]. intros [->|H].
    + assert (E' : String.compare b b = Eq)
        by (now apply OrderedTypeEx.String_as_OT.cmp_eq).
      congruence.
    + apply OrderedTypeEx.String_as_OT.cmp_lt in H.
      unfold OrderedTypeEx.String_as_OT.cmp in H. congruence.
Qed.

Lemma string_leb_trans a b c :
  String.leb a b = true -> String.leb b c = true -> String.leb a c = true.
Proof.
  rewrite !string_leb_iff. intros [->|H1] [->|H2]; auto.
  right. eapply OrderedTypeEx.String_as_OT.lt_trans; eassumption.
Qed.

Lemma unique_sorted_in l k : In k (unique_sorted l) <-> In k l.
Proof.
  unfold unique_sorted, sort_strings.
  rewrite insertion_sort_in. apply nodup_In.
Qed.

Lemma unique_sorted_nodup l : NoDup (unique_sorted l).
Proof. apply insertion_sort_nodup, NoDup_nodup. Qed.

Lemma unique_sorted_sorted l :
  StronglySorted (fun a b => String.leb a b = true) (unique_sorted l).
Proof.
  apply insertion_sort_sorted; [apply String.leb_total | apply string_leb_trans].
Qed.

(** The sorted keys depend on the set of keys only. *)
Lemma unique_sorted_ext l1 l2 :
  (forall k, In k l1 <-> In k l2) -> unique_sorted l1 = unique_sorted l2.
Proof.
  intro H.
  apply (sorted_nodup_unique String.leb String.leb_antisym);
    try apply unique_sorted_sorted; try apply unique_sorted_nodup.
  intro k. now rewrite !unique_sorted_in.
Qed.

(** ** Fund table loader *)

Lemma sumQ_pos l : l <> [] -> Forall (fun x => 0 < x) l -> 0 < sumQ l.
Proof.
  intros Hne H. destruct H as [|x l Hx Hl]; [congruence|].
  rewrite sumQ_cons.
  assert (0 <= sumQ l).
  { apply sumQ_nonneg. eapply Forall_impl; [|exact Hl].
    intros a Ha. now apply Qlt_le_weak. }
  lra.
Qed.

Lemma rows_with_in (V : Type) k (rows : list (string * V)) r :
  In r (rows_with k rows) <-> In r rows /\ fst r = k.
Proof.
  unfold rows_with. rewrite filter_In.
  destruct (String.eqb_spec (fst r) k); intuition congruence.
Qed.

Lemma rows_with_filter (V : Type) k (p : string * V -> bool) rows :
  rows_with k (filter p rows) = filter p (rows_with k rows).
Proof.
  unfold rows_with. induction rows as [|r rows IH]; [reflexivity|]. simpl.
  destruct (p r) eqn:Ep; destruct (String.eqb (fst r) k) eqn:Ek; simpl;
    rewrite ?Ep, ?Ek, IH; reflexivity.
Qed.

Lemma groupby_sum_keys out : map fst (groupby_sum out) = unique_sorted (map fst out).
Proof.
  unfold groupby_sum. rewrite map_map. cbn [fst]. apply map_id.
Qed.

Lemma groupby_sum_in out k q :
  In (k, q) (groupby_sum out) <->
  In k (map fst out) /\ q = sumQ (map snd (rows_with k out)).
Proof.
  unfold groupby_sum. rewrite in_map_iff. split.
  - intros [k' [H Hin]]. injection H as Hk Hq. subst k' q.
    apply (proj1 (unique_sorted_in _ _)) in Hin. split; [exact Hin | reflexivity].
  - intros [Hin ->]. exists k. split; [reflexivity|].
    now apply (proj2 (unique_sorted_in _ _)).
Qed.

Lemma keep_row_true k x : keep_row (k, x) = true <-> k <> "" /\ 0 < x.
Proof.
  unfold keep_row. cbn [fst snd]. rewrite andb_true_iff, negb_true_iff, Qgtb_true.
  destruct (String.eqb_spec k ""); intuition congruence.
Qed.

(** Dropping the rows of weight 0 does not change a sum of weights that
    are not negative. *)
Lemma sumQ_filter_positive (rows : Table) k :
  k <> "" ->
  Forall (fun r => fst r = k /\ 0 <= snd r) rows ->
  sumQ (map snd (filter keep_row rows)) == sumQ (map snd rows).
Proof.
  intros Hk H. induction H as [|[k' x] rows [Hk' Hx] Hrows IH]; [reflexivity|].
  cbn [fst snd] in *. subst k'. cbn [filter map].
  destruct (keep_row (k, x)) eqn:E.
  - cbn [map snd]. now rewrite !sumQ_cons, IH.
  - rewrite sumQ_cons, IH. cbn [snd].
    assert (Hx0 : x == 0).
    { apply Qle_antisym; [|exact Hx].
      apply Qgtb_false. unfold keep_row in E. cbn [fst snd] in E.
      apply andb_false_iff in E as [E|E]; [|exact E].
      apply negb_false_iff, String.eqb_eq in E. contradiction. }
    rewrite Hx0. ring.
Qed.

Lemma filter_map_swap (A B : Type) (g : A -> B) (p : B -> bool) l :
  filter p (map g l) = map g (filter (fun a => p (g a)) l).
Proof.
  induction l as [|a l IH]; [reflexivity|]. simpl.
  destruct (p (g a)); simpl; now rewrite IH.
Qed.

Lemma filter_strongly_sorted (A : Type) (R : A -> A -> Prop) (p : A -> bool) l :
  StronglySorted R l -> StronglySorted R (filter p l).
Proof.
  induction 1 as [|a l Hl IH Ha]; simpl; [constructor|].
  destruct (p a); [|exact IH]. constructor; [exact IH|].
  rewrite Forall_forall in *. intros x Hx. apply Ha.
  now apply filter_In in Hx.
Qed.

Section CleanTable.

Variable to_numeric : string -> option Q.
Variables codes weights : list string.

Let out : Table :=
  combine (_normalize_code codes) (_to_fraction to_numeric weights).

Lemma clean_table_unfold :
  clean_table to_numeric codes weights = groupby_sum (filter keep_row out).
Proof. reflexivity. Qed.

Lemma clean_table_rows k q :
  In (k, q) (clean_table to_numeric codes weights) ->
  k <> "" /\ 0 < q /\
  q = sumQ (map snd (rows_with k (filter keep_row out))).
Proof.
  rewrite clean_table_unfold, groupby_sum_in. intros [Hk ->].
  apply in_map_iff in Hk as [[k' x] [Hfst Hin]]. cbn [fst] in Hfst. subst k'.
  pose proof Hin as Hkept. apply filter_In in Hkept as [_ Hkept].
  apply keep_row_true in Hkept as [Hne Hx].
  split; [exact Hne|]. split; [|reflexivity].
  apply sumQ_pos.
  - intro Hnil. apply map_eq_nil in Hnil.
    assert (Hr : In (k, x) (rows_with k (filter keep_row out)))
      by (now apply rows_with_in).
    rewrite Hnil in Hr. destruct Hr.
  - rewrite Forall_forall. intros y Hy.
    apply in_map_iff in Hy as [[k' y'] [<- Hy]].
    apply rows_with_in in Hy as [Hy _]. apply filter_In in Hy as [_ Hy].
    now apply keep_row_true in Hy.
Qed.

Lemma clean_table_keys k :
  In k (map fst (clean_table to_numeric codes weights)) <->
  k <> "" /\ exists x, In (k, x) out /\ 0 < x.
Proof.
  rewrite clean_table_unfold, groupby_sum_keys, unique_sorted_in, in_map_iff.
  split.
  - intros [[k' x] [Hfst Hin]]. cbn [fst] in Hfst. subst k'.
    apply filter_In in Hin as [Hin Hkeep].
    apply keep_row_true in Hkeep as [Hne Hx]. eauto.
  - intros [Hne [x [Hin Hx]]]. exists (k, x). split; [reflexivity|].
    apply filter_In. split; [exact Hin|]. now apply keep_row_true.
Qed.

Hypothesis weights_nonneg :
  Forall (fun x => 0 <= x) (_to_fraction to_numeric weights).

Lemma out_nonneg r : In r out -> 0 <= snd r.
Proof.
  destruct r as [k x]. intro H. apply in_combine_r in H.
  rewrite Forall_forall in weights_nonneg. now apply weights_nonneg.
Qed.

Lemma group_sum_kept k :
  k <> "" ->
  sumQ (map snd (rows_with k (filter keep_row out)))
  == sumQ (map snd (rows_with k out)).
Proof.
  intro Hk. rewrite rows_with_filter. apply sumQ_filter_positive with (k := k).
  - exact Hk.
  - rewrite Forall_forall. intros r Hr. apply rows_with_in in Hr as [Hr Hf].
    split; [exact Hf | now apply out_nonneg].
Qed.

Lemma group_sum_positive k :
  k <> "" ->
  (0 < sumQ (map snd (rows_with k out)) <-> exists x, In (k, x) out /\ 0 < x).
Proof.
  intro Hk. split.
  - intro Hpos. rewrite <- (group_sum_kept Hk) in Hpos.
    destruct (rows_with k (filter keep_row out)) as [|[k' x] rest] eqn:E.
    + unfold sumQ in Hpos. simpl in Hpos. discriminate.
    + assert (Hin : In (k', x) (rows_with k (filter keep_row out)))
        by (rewrite E; now left).
      apply rows_with_in in Hin as [Hin Hf]. cbn [fst] in Hf. subst k'.
      apply filter_In in Hin as [Hin Hkeep].
      apply keep_row_true in Hkeep as [_ Hx]. eauto.
  - intros [x [Hin Hx]]. rewrite <- (group_sum_kept Hk).
    assert (Hq : In (k, sumQ (map snd (rows_with k (filter keep_row out))))
                    (clean_table to_numeric codes weights)).
    { rewrite clean_table_unfold. apply groupby_sum_in.
      split; [|reflexivity]. apply in_map_iff. exists (k, x).
      split; [reflexivity|]. apply filter_In. split; [exact Hin|].
      now apply keep_row_true. }
    now apply clean_table_rows in Hq.
Qed.

(** With no negative weight, it makes no difference whether the rows are
    filtered before or after the duplicates are summed. *)
Lemma clean_table_order_irrelevant :
  same_rows (clean_table to_numeric codes weights)
            (clean_table_sum_first to_numeric codes weights).
Proof.
  unfold clean_table_sum_first, same_rows. cbv zeta. fold out.
  rewrite clean_table_unfold.
  set (g := fun k => (k, sumQ (map snd (rows_with k out)))).
  change (groupby_sum out) with (map g (unique_sorted (map fst out))).
  rewrite (filter_map_swap g keep_row).
  assert (Hkeys :
    filter (fun a => keep_row (g a)) (unique_sorted (map fst out))
    = unique_sorted (map fst (filter keep_row out))).
  { apply (sorted_nodup_unique String.leb String.leb_antisym).
    - apply filter_strongly_sorted, unique_sorted_sorted.
    - apply unique_sorted_sorted.
    - apply NoDup_filter, unique_sorted_nodup.
    - apply unique_sorted_nodup.
    - intro k. rewrite filter_In, !unique_sorted_in. unfold g.
      rewrite keep_row_true. split.
      + intros [_ [Hk Hpos]].
        apply (group_sum_positive Hk) in Hpos as [x [Hin Hx]].
        apply in_map_iff. exists (k, x). split; [reflexivity|].
        apply filter_In. split; [exact Hin|]. now apply keep_row_true.
      + intro Hin. apply in_map_iff in Hin as [[k' x] [Hf Hin]].
        cbn [fst] in Hf. subst k'. apply filter_In in Hin as [Hin Hkeep].
        apply keep_row_true in Hkeep as [Hk Hx].
        split; [apply in_map_iff; now exists (k, x)|].
        split; [exact Hk|]. apply (group_sum_positive Hk). eauto. }
  rewrite Hkeys. clear Hkeys. unfold groupby_sum.
  assert (Hall : Forall (fun k => k <> "")
                        (unique_sorted (map fst (filter keep_row out)))).
  { rewrite Forall_forall. intros k Hk. apply (proj1 (unique_sorted_in _ _)) in Hk.
    apply in_map_iff in Hk as [[k' x] [Hf Hin]]. cbn [fst] in Hf. subst k'.
    apply filter_In in Hin as [_ Hkeep]. now apply keep_row_true in Hkeep. }
  induction Hall as [|k keys Hk Hkeys' IH]; [constructor|].
  cbn [map]. constructor; [|exact IH].
  unfold g. cbn [fst snd]. split; [reflexivity|]. now apply group_sum_kept.
Qed.

End CleanTable.

Lemma groupby_sum_pair c x y :
  groupby_sum [(c, x); (c, y)] = [(c, 0 + x + y)].
Proof.
  unfold groupby_sum, unique_sorted, rows_with. cbn [map fst nodup].
  destruct (in_dec string_dec c [c]) as [_|H]; [|exfalso; apply H; now left].
  cbn [nodup in_dec]. cbn. now rewrite String.eqb_refl.
Qed.

Example clean_table_duplicate :
  same_rows (clean_table Decimal.parse ["600519"; "600519"] ["0.02"; "0.03"])
            [("600519", 5 # 100)].
Proof. repeat constructor. Qed.

(** C4, as the specification states it, fails: the rows are filtered first
    and summed after, which shows as soon as a duplicate carries a negative
    weight.  Summing first would give 0.03 here; the code gives 0.05. *)
Lemma clean_table_filters_before_summing :
  same_rows (clean_table Decimal.parse ["A"; "A"] ["0.05"; "-0.02"])
            [("A", 5 # 100)] /\
  same_rows (clean_table_sum_first Decimal.parse ["A"; "A"] ["0.05"; "-0.02"])
            [("A", 3 # 100)] /\
  ~ (forall (to_numeric : string -> option Q) (codes weights : list string),
        same_rows (clean_table to_numeric codes weights)
                  (clean_table_sum_first to_numeric codes weights)).
Proof.
  split; [repeat constructor|]. split; [repeat constructor|].
  intro H. specialize (H Decimal.parse ["A"; "A"] ["0.05"; "-0.02"]).
  vm_compute in H. inversion H as [|? ? ? ? [_ Hq] _]; subst.
  vm_compute in Hq. discriminate.
Qed.

(** C4, amended: within one file the rows with an empty code or a weight
    that is not positive are dropped first, and the duplicate codes that
    remain are merged by summing their weights, each code once; two rows
    of one code with positive weights [x] and [y] give one row of weight
    [x + y]; when no normalised weight is negative the result is the same
    as summing before filtering. *)
Theorem clean_table_sums_kept_duplicates
  (to_numeric : string -> option Q) (codes weights : list string) :
  NoDup (map fst (clean_table to_numeric codes weights))
  /\
  (forall k q, In (k, q) (clean_table to_numeric codes weights) ->
     k <> "" /\ 0 < q /\
     q = sumQ (map snd (rows_with k (filter keep_row
           (combine (_normalize_code codes)
                    (_to_fraction to_numeric weights))))))
  /\
  (forall k, In k (map fst (clean_table to_numeric codes weights)) <->
     k <> "" /\
     exists x, In (k, x) (combine (_normalize_code codes)
                                  (_to_fraction to_numeric weights)) /\ 0 < x)
  /\
  (forall c x y, c <> "" -> 0 < x -> 0 < y ->
     groupby_sum (filter keep_row [(c, x); (c, y)]) = [(c, 0 + x + y)])
  /\
  (Forall (fun x => 0 <= x) (_to_fraction to_numeric weights) ->
   same_rows (clean_table to_numeric codes weights)
             (clean_table_sum_first to_numeric codes weights)).
Proof.
  split; [|split; [|split; [|split]]].
  - rewrite clean_table_unfold, groupby_sum_keys. apply unique_sorted_nodup.
  - apply clean_table_rows.
  - apply clean_table_keys.
  - intros c x y Hc Hx Hy. cbn [filter].
    rewrite (proj2 (keep_row_true c x) (conj Hc Hx)).
    rewrite (proj2 (keep_row_true c y) (conj Hc Hy)).
    apply groupby_sum_pair.
  - apply clean_table_order_irrelevant.
Qed.

Lemma clean_table_sums_kept_duplicates_witness :
  same_rows (clean_table Decimal.parse ["600519"; "000001"; "600519"]
                         ["2%"; "95"; "3"])
            (clean_table_sum_first Decimal.parse ["600519"; "000001"; "600519"]
                                   ["2%"; "95"; "3"]).
Proof.
  apply (clean_table_sums_kept_duplicates
           Decimal.parse ["600519"; "000001"; "600519"] ["2%"; "95"; "3"]).
  repeat constructor; discriminate.
Defined.

(** ** Recovery read *)

Lemma remove_created_temp fs :
  fresh_names fs ->
  temp_files (remove_temp (next_temp fs) (snd (create_temp fs))) = temp_files fs.
Proof.
  unfold fresh_names, remove_temp, create_temp. cbn [snd temp_files].
  intro H. cbn [filter]. rewrite Nat.eqb_refl. cbn [negb].
  induction H as [|p l Hp Hl IH]; [reflexivity|]. cbn [filter].
  assert (E : Nat.eqb p (next_temp fs) = false) by (apply Nat.eqb_neq; lia).
  rewrite E. cbn [negb]. now rewrite IH.
Qed.

Section ReaderFacts.

Variable read_excel : list (string * string) -> option DataFrame.
Variable os_remove_ok : nat -> bool.

(** Where the temporary file of a recovery read ends up, path by path. *)
Lemma read_xlsx_temp_files f fs :
  fresh_names fs ->
  let fs' := snd (_read_xlsx_without_styles read_excel os_remove_ok f fs) in
  match archive f with
  | None => fs' = fs
  | Some items =>
      match copy_members items [] with
      | Raised => temp_files fs' = next_temp fs :: temp_files fs
      | Ok _ =>
          if os_remove_ok (next_temp fs)
          then temp_files fs' = temp_files fs
          else temp_files fs' = next_temp fs :: temp_files fs
      end
  end.
Proof.
  intro Hfresh. unfold _read_xlsx_without_styles.
  destruct (archive f) as [items|]; [|reflexivity].
  cbn [create_temp].
  destruct (copy_members items []) as [zout|]; [|reflexivity].
  destruct (os_remove_ok (next_temp fs)); [|reflexivity].
  cbn [snd]. exact (remove_created_temp Hfresh).
Qed.

End ReaderFacts.

(** C8 fails on the code: when a member of the archive cannot be read
    back, the exception leaves the function from inside the [with] block,
    before the [try ... finally] that removes the file, and the temporary
    file that [NamedTemporaryFile(delete=False)] made stays behind; so too
    after [read_one] has caught the exception. *)
Theorem read_xlsx_leaves_temp_file
  (read_excel : list (string * string) -> option DataFrame)
  (os_remove_ok : nat -> bool) (to_numeric : string -> option Q) :
  _read_xlsx_without_styles read_excel os_remove_ok corrupt_workbook no_temp_files
  = (Raised, {| temp_files := [0%nat]; next_temp := 1 |})
  /\
  read_one read_excel os_remove_ok to_numeric corrupt_workbook no_temp_files
  = (None, {| temp_files := [0%nat]; next_temp := 1 |}).
Proof. split; reflexivity. Qed.

(** ** Aggregator: the outer join *)



Lemma rows_with_nil_inv (V : Type) k (rows : list (string * V)) :
  rows_with k rows = [] -> ~ In k (map fst rows).
Proof.
  intros H Hin. apply in_map_iff in Hin as [r [Hf Hin]].
  assert (Hr : In r (rows_with k rows)) by (now apply rows_with_in).
  rewrite H in Hr. destruct Hr.
Qed.



Lemma cell_in_some k df : In k (map fst df) -> exists x, In (k, x) df /\ cell_in k df = Some x.
Proof.
  intro H. unfold cell_in.
  destruct (rows_with k df) as [|[k' x] rest] eqn:E.
  - exfalso. exact (@rows_with_nil_inv _ k df E H).
  - assert (Hr : In (k', x) (rows_with k df)) by (rewrite E; now left).
    apply rows_with_in in Hr as [Hr Hf]. cbn [fst] in Hf. subst k'.
    exists x. split; [exact Hr | reflexivity].
Qed.












(** ** Aggregator: the rows *)








(** ** Aggregator: the final sort *)










Example scenario_equal_scheme :
  map (fun r => (code r, Qred (total_weight r), appear_in r))
      (aggregate sort_keep_ties scenario_weights scenario_tables)
  = [("Y", 11 # 20, 2%nat); ("X", 9 # 20, 2%nat); ("Z", 1 # 20, 1%nat)].
Proof. reflexivity. Qed.





(** ** Invariants of the loaded tables and of the output *)


Section LoaderFacts.

Variable read_excel : list (string * string) -> option DataFrame.
Variable os_remove_ok : nat -> bool.
Variable to_numeric : string -> option Q.




End LoaderFacts.







Example load_all_demo :
  load_all (fun _ => None) (fun _ => true) Decimal.parse demo_files no_temp_files
  = ([("159338", [("000001", 0 + (95 / 100)); ("600519", 0 + (2 / 100) + (3 / 100))])],
     {| temp_files := [0%nat]; next_temp := 1 |}).
Proof. reflexivity. Qed.


(** * Further properties *)

(** ** Recovery read *)

Lemma copy_members_acc items acc :
  copy_members items acc
  = match copy_members items [] with
    | Ok zout => Ok (acc ++ zout)
    | Raised => Raised
    end.
Proof.
  revert acc. induction items as [|item items IH]; intro acc; cbn [copy_members].
  - now rewrite app_nil_r.
  - destruct (skipped_member (filename item)); [apply IH|].
    destruct (data item) as [bytes|]; [|reflexivity].
    rewrite (IH (acc ++ [(filename item, bytes)])), (IH ([] ++ [(filename item, bytes)])).
    destruct (copy_members items []); [|reflexivity].
    now rewrite <- app_assoc.
Qed.

(** X1: the archive rebuilt by the recovery read holds, in their order and
    with their bytes, exactly the members that are neither
    [xl/styles.xml] nor under [xl/theme]; rebuilding fails exactly when
    one of those members cannot be read back. *)
Theorem copy_members_kept (items : list ZipItem) :
  (copy_members items [] = Raised <->
   exists item, In item (kept_members items) /\ data item = None)
  /\
  (forall zout, copy_members items [] = Ok zout ->
     map (fun e => (fst e, Some (snd e))) zout
     = map (fun item => (filename item, data item)) (kept_members items) /\
     Forall (fun e => skipped_member (fst e) = false) zout).
Proof.
  induction items as [|item items [IHr IHo]].
  - split.
    + split; [discriminate|]. intros [item [[] _]].
    + intros zout H. injection H as <-. split; [reflexivity|constructor].
  - unfold kept_members in *. cbn [copy_members filter].
    destruct (skipped_member (filename item)) eqn:Es; cbn [negb].
    { split; [exact IHr | exact IHo]. }
    destruct (data item) as [bytes|] eqn:Ed.
    + rewrite copy_members_acc. cbn [app].
      destruct (copy_members items []) as [z|] eqn:Ec.
      * split.
        -- split; [discriminate|]. intros [it [[<-|Hin] Hd]]; [congruence|].
           discriminate (proj2 IHr (ex_intro _ it (conj Hin Hd))).
        -- intros zout H. injection H as <-.
           destruct (IHo z eq_refl) as [Hm Hf]. split.
           ++ cbn [map fst snd]. now rewrite Hm, Ed.
           ++ constructor; [exact Es | exact Hf].
      * split; [|discriminate]. split; [|reflexivity]. intros _.
        destruct (proj1 IHr eq_refl) as [it [Hin Hd]]. exists it.
        split; [now right | exact Hd].
    + split; [|discriminate]. split; [|reflexivity]. intros _.
      exists item. split; [now left | exact Ed].
Qed.

(** X2: when the archive opens, every copied member reads back and
    [os.remove] succeeds, the recovery read returns what [pd.read_excel]
    makes of the rebuilt archive, an exception included, and leaves no
    temporary file behind; when the file does not open as an archive it
    raises without creating one. *)
Theorem recovery_read_removes_temp
  (read_excel : list (string * string) -> option DataFrame)
  (os_remove_ok : nat -> bool) (f : SourceFile) (fs : FileSystem) :
  fresh_names fs ->
  (forall items zout,
     archive f = Some items -> copy_members items [] = Ok zout ->
     os_remove_ok (next_temp fs) = true ->
     fst (_read_xlsx_without_styles read_excel os_remove_ok f fs)
     = match read_excel zout with Some df => Ok df | None => Raised end /\
     temp_files (snd (_read_xlsx_without_styles read_excel os_remove_ok f fs))
     = temp_files fs)
  /\
  (archive f = None ->
   _read_xlsx_without_styles read_excel os_remove_ok f fs = (Raised, fs)).
Proof.
  intro Hfresh. unfold _read_xlsx_without_styles. split.
  - intros items zout Ha Hc Hr. rewrite Ha. cbn [create_temp].
    rewrite Hc, Hr. cbn [fst snd]. split; [reflexivity|].
    exact (remove_created_temp Hfresh).
  - intros Ha. now rewrite Ha.
Qed.

Lemma recovery_read_removes_temp_witness :
  fst (_read_xlsx_without_styles (fun _ => None) (fun _ => true)
         restyled_workbook {| temp_files := [3%nat; 1%nat]; next_temp := 5 |})
  = Raised /\
  temp_files (snd (_read_xlsx_without_styles (fun _ => None) (fun _ => true)
         restyled_workbook {| temp_files := [3%nat; 1%nat]; next_temp := 5 |}))
  = [3%nat; 1%nat].
Proof.
  refine (proj1 (@recovery_read_removes_temp (fun _ => None) (fun _ => true)
                   restyled_workbook
                   {| temp_files := [3%nat; 1%nat]; next_temp := 5 |} _)
                _ [("xl/workbook.xml", "wb")] eq_refl eq_refl eq_refl).
  repeat constructor.
Defined.

(** ** Code normalisation, on padded codes *)

Lemma lstrip_all_space p :
  Forall (fun c => PyStr.isspace c = true) p -> PyStr.lstrip p = [].
Proof.
  induction 1 as [|c p Hc Hp IH]; [reflexivity|]. simpl. now rewrite Hc.
Qed.

Lemma lstrip_padding p x :
  Forall (fun c => PyStr.isspace c = true) p ->
  PyStr.starts_space x = false ->
  PyStr.lstrip (p ++ x) = x.
Proof.
  intros Hp Hx. induction Hp as [|c p Hc Hp IH]; simpl.
  - now apply PyStrFacts.lstrip_fixed.
  - now rewrite Hc.
Qed.

Lemma rstrip_padding p x :
  Forall (fun c => PyStr.isspace c = true) p ->
  PyStr.ends_space x = false ->
  PyStr.rstrip (x ++ p) = x.
Proof.
  intros Hp Hx. unfold PyStr.rstrip. rewrite rev_app_distr.
  rewrite lstrip_padding.
  - apply rev_involutive.
  - apply Forall_rev, Hp.
  - exact Hx.
Qed.

Lemma strip_padding p1 p2 x :
  Forall (fun c => PyStr.isspace c = true) p1 ->
  Forall (fun c => PyStr.isspace c = true) p2 ->
  PyStr.starts_space x = false -> PyStr.ends_space x = false ->
  PyStr.strip (p1 ++ x ++ p2) = x.
Proof.
  intros H1 H2 Hs He. unfold PyStr.strip.
  destruct x as [|c x].
  - cbn [app]. rewrite lstrip_all_space; [reflexivity|].
    apply Forall_app. auto.
  - rewrite lstrip_padding; [now apply rstrip_padding | exact H1 | exact Hs].
Qed.

Lemma ends_space_app_dot0 x : PyStr.ends_space (x ++ [PyStr.dot; PyStr.zero]) = false.
Proof. unfold PyStr.ends_space. rewrite rev_app_distr. reflexivity. Qed.

Lemma starts_space_app_dot0 x :
  PyStr.starts_space x = false ->
  PyStr.starts_space (x ++ [PyStr.dot; PyStr.zero]) = false.
Proof. destruct x; [reflexivity | auto]. Qed.

Lemma list_ascii_of_string_app a b :
  list_ascii_of_string (a ++ b)%string
  = list_ascii_of_string a ++ list_ascii_of_string b.
Proof. induction a as [|c a IH]; simpl; [reflexivity | now rewrite IH]. Qed.

(** X3: a code that has no white space at its ends and does not end in
    [".0"] is what normalisation returns for it, for it with white space
    around, and for it followed by one [".0"], padded or not: these
    spellings of a code all name the same row. *)
Theorem normalize_code_absorbs_padding (p1 p2 c : string) :
  all_space p1 -> all_space p2 ->
  PyStr.starts_space (list_ascii_of_string c) = false ->
  PyStr.ends_space (list_ascii_of_string c) = false ->
  PyStr.ends_dot0 (list_ascii_of_string c) = false ->
  _normalize_code_cell (p1 ++ c ++ p2)%string = c /\
  _normalize_code_cell (p1 ++ (c ++ ".0") ++ p2)%string = c.
Proof.
  unfold all_space, _normalize_code_cell, normalize_code_chars.
  intros H1 H2 Hs He Hd.
  rewrite !list_ascii_of_string_app.
  change (list_ascii_of_string ".0") with [PyStr.dot; PyStr.zero].
  split.
  - rewrite strip_padding by assumption.
    rewrite PyStrFacts.sub_dot0_no_match by assumption.
    apply string_of_list_ascii_of_string.
  - rewrite strip_padding;
      [| assumption | assumption
       | now apply starts_space_app_dot0 | apply ends_space_app_dot0].
    rewrite PyStrFacts.sub_dot0_app.
    apply string_of_list_ascii_of_string.
Qed.

Lemma normalize_code_absorbs_padding_witness :
  _normalize_code_cell (" " ++ "600519" ++ "  ")%string = "600519" /\
  _normalize_code_cell (" " ++ ("600519" ++ ".0") ++ "  ")%string = "600519".
Proof.
  apply (@normalize_code_absorbs_padding " " "  " "600519");
    try reflexivity; repeat constructor.
Defined.

(** ** Reading and loading files *)

Lemma strongly_sorted_strict (A : Type) (R : A -> A -> Prop) l :
  StronglySorted R l -> NoDup l ->
  StronglySorted (fun a b => R a b /\ a <> b) l.
Proof.
  induction 1 as [|a l Hl IH Ha]; intro Hnd; constructor;
    inversion Hnd as [|? ? Hnin Hnd']; subst.
  - now apply IH.
  - rewrite Forall_forall in *. intros b Hb. split; [now apply Ha|].
    intros ->. contradiction.
Qed.

Lemma dict_get_set (V : Type) (d : Dict.t V) k v k' :
  Dict.get (Dict.set k v d) k'
  = if String.eqb k k' then Some v else Dict.get d k'.
Proof.
  induction d as [|[k0 v0] d IH]; cbn [Dict.set Dict.get].
  - reflexivity.
  - destruct (String.eqb_spec k0 k) as [->|Hne]; cbn [Dict.get].
    + destruct (String.eqb k k'); reflexivity.
    + rewrite IH. destruct (String.eqb_spec k0 k') as [->|Hne'];
        [|reflexivity].
      destruct (String.eqb_spec k k') as [->|]; [contradiction|reflexivity].
Qed.

Section LoadingFacts.

Variable read_excel : list (string * string) -> option DataFrame.
Variable os_remove_ok : nat -> bool.
Variable to_numeric : string -> option Q.

Let read := read_one read_excel os_remove_ok to_numeric.
Let load := load_all read_excel os_remove_ok to_numeric.

Lemma read_xlsx_result_any_fs f fs1 fs2 :
  fst (_read_xlsx_without_styles read_excel os_remove_ok f fs1)
  = fst (_read_xlsx_without_styles read_excel os_remove_ok f fs2).
Proof.
  unfold _read_xlsx_without_styles.
  destruct (archive f) as [items|]; [|reflexivity]. cbn [create_temp].
  destruct (copy_members items []) as [zout|]; reflexivity.
Qed.

(** The table read from a file does not depend on the temporary files
    around. *)
Lemma read_one_table_any_fs f fs :
  fst (read f fs) = table_of read_excel os_remove_ok to_numeric f.
Proof.
  unfold table_of, read, read_one.
  destruct (direct_read f) as [df|].
  - destruct (negb (has_column df CODE_COL) || negb (has_column df WEIGHT_COL));
      reflexivity.
  - pose proof (read_xlsx_result_any_fs f fs no_temp_files) as H.
    destruct (_read_xlsx_without_styles read_excel os_remove_ok f fs) as [[df|] fsa];
      destruct (_read_xlsx_without_styles read_excel os_remove_ok f no_temp_files)
        as [[df'|] fsb]; cbn [fst] in H; try discriminate; try reflexivity.
    injection H as <-.
    destruct (negb (has_column df CODE_COL) || negb (has_column df WEIGHT_COL));
      reflexivity.
Qed.

Lemma read_one_direct f fs df :
  direct_read f = Some df ->
  read f fs
  = (if negb (has_column df CODE_COL) || negb (has_column df WEIGHT_COL)
     then None
     else Some (clean_table to_numeric (column df CODE_COL) (column df WEIGHT_COL)),
     fs).
Proof.
  intro H. unfold read, read_one. rewrite H.
  destruct (negb (has_column df CODE_COL) || negb (has_column df WEIGHT_COL));
    reflexivity.
Qed.

Lemma load_all_snoc files f fs :
  load (files ++ [f]) fs
  = match read f (snd (load files fs)) with
    | (Some (r :: df), fs') => (Dict.set (stem f) (r :: df) (fst (load files fs)), fs')
    | (_, fs') => (fst (load files fs), fs')
    end.
Proof.
  unfold load, load_all. rewrite fold_left_app. cbn [fold_left].
  match goal with
  | |- context [fold_left ?step files ?start] =>
      destruct (fold_left step files start) as [tables fs1]
  end.
  reflexivity.
Qed.

Lemma load_all_keys_nodup files fs : NoDup (Dict.keys (fst (load files fs))).
Proof.
  induction files as [|f files IH] using rev_ind; [constructor|].
  rewrite load_all_snoc.
  destruct (read f (snd (load files fs))) as [[[|r df]|] fs']; cbn [fst];
    try exact IH.
  now apply DictFacts.set_nodup.
Qed.

Lemma load_all_get files fs name :
  Dict.get (fst (load files fs)) name
  = match find (kept_as read_excel os_remove_ok to_numeric name) (rev files) with
    | Some f => table_of read_excel os_remove_ok to_numeric f
    | None => None
    end.
Proof.
  induction files as [|f files IH] using rev_ind; [reflexivity|].
  rewrite load_all_snoc, rev_app_distr. cbn [rev app find].
  unfold kept_as at 1.
  pose proof (read_one_table_any_fs f (snd (load files fs))) as Ht.
  destruct (read f (snd (load files fs))) as [t fs']. cbn [fst] in Ht.
  rewrite <- Ht.
  destruct t as [[|r df]|]; cbn [fst]; rewrite ?andb_false_r; try exact IH.
  rewrite dict_get_set, andb_true_r.
  destruct (String.eqb (stem f) name); [exact Ht | exact IH].
Qed.

Lemma load_all_nonempty files fs :
  Forall (fun t => snd t <> []) (fst (load files fs)).
Proof.
  induction files as [|f files IH] using rev_ind; [constructor|].
  rewrite load_all_snoc.
  destruct (read f (snd (load files fs))) as [[[|r df]|] fs']; cbn [fst];
    try exact IH.
  rewrite Forall_forall in *. intros [name t] Hin.
  apply DictFacts.set_in in Hin as [[_ ->]|Hin]; [discriminate|].
  exact (IH _ Hin).
Qed.

End LoadingFacts.

(** X4: a table that [read_one] returns lists its codes in strictly
    ascending order; and a frame that was read but lacks the code column
    or the weight column gives no table, the file system being left as it
    was. *)
Theorem read_one_sorted_codes
  (read_excel : list (string * string) -> option DataFrame)
  (os_remove_ok : nat -> bool) (to_numeric : string -> option Q)
  (f : SourceFile) (fs : FileSystem) :
  (forall t fs',
     read_one read_excel os_remove_ok to_numeric f fs = (Some t, fs') ->
     StronglySorted (fun a b => String.leb a b = true /\ a <> b) (map fst t))
  /\
  (forall df,
     direct_read f = Some df ->
     has_column df CODE_COL = false \/ has_column df WEIGHT_COL = false ->
     read_one read_excel os_remove_ok to_numeric f fs = (None, fs)).
Proof.
  split.
  - intros t fs'. unfold read_one.
    destruct (match direct_read f with
              | Some df => (Some df, fs)
              | None =>
                  match _read_xlsx_without_styles read_excel os_remove_ok f fs with
                  | (Ok df, fs1) => (Some df, fs1)
                  | (Raised, fs1) => (None, fs1)
                  end
              end) as [[df|] fs1]; [|discriminate].
    destruct (negb (has_column df CODE_COL) || negb (has_column df WEIGHT_COL));
      [discriminate|].
    intro H. injection H as <- _.
    rewrite clean_table_unfold, groupby_sum_keys.
    apply strongly_sorted_strict;
      [apply unique_sorted_sorted | apply unique_sorted_nodup].
  - intros df Hd Hcol. rewrite (@read_one_direct _ _ _ f fs df Hd).
    destruct Hcol as [-> | ->]; cbn [negb orb]; [reflexivity|].
    now rewrite orb_true_r.
Qed.

(** X5: the tables [load_all] returns have distinct names and at least one
    row each, and the table under a name is the one read from the last
    file, in the order the files are visited, that bears this stem and
    gave a table with rows: a later file replaces an earlier one of the
    same stem. *)
Theorem load_all_tables
  (read_excel : list (string * string) -> option DataFrame)
  (os_remove_ok : nat -> bool) (to_numeric : string -> option Q)
  (files : list SourceFile) (fs : FileSystem) :
  NoDup (Dict.keys (fst (load_all read_excel os_remove_ok to_numeric files fs)))
  /\
  Forall (fun t => snd t <> [])
         (fst (load_all read_excel os_remove_ok to_numeric files fs))
  /\
  (forall name,
     Dict.get (fst (load_all read_excel os_remove_ok to_numeric files fs)) name
     = match find (kept_as read_excel os_remove_ok to_numeric name) (rev files) with
       | Some f => table_of read_excel os_remove_ok to_numeric f
       | None => None
       end).
Proof.
  split; [apply load_all_keys_nodup|].
  split; [apply load_all_nonempty | apply load_all_get].
Qed.

(** X6: when every file of the folder is read directly, [load_all] creates
    no temporary file: the file system is as before. *)
Theorem load_all_direct_reads
  (read_excel : list (string * string) -> option DataFrame)
  (os_remove_ok : nat -> bool) (to_numeric : string -> option Q)
  (files : list SourceFile) (fs : FileSystem) :
  Forall (fun f => direct_read f <> None) files ->
  snd (load_all read_excel os_remove_ok to_numeric files fs) = fs.
Proof.
  induction files as [|f files IH] using rev_ind; intro H; [reflexivity|].
  apply Forall_app in H as [Hfiles Hf]. apply Forall_inv in Hf.
  rewrite load_all_snoc. rewrite (IH Hfiles).
  destruct (direct_read f) as [df|] eqn:Ed; [|congruence].
  rewrite (@read_one_direct _ _ _ f fs df Ed).
  destruct (negb (has_column df CODE_COL) || negb (has_column df WEIGHT_COL));
    [reflexivity|].
  destruct (clean_table to_numeric (column df CODE_COL) (column df WEIGHT_COL));
    reflexivity.
Qed.

Example load_all_same_stem :
  fst (load_all (fun _ => None) (fun _ => true) Decimal.parse
                same_stem_files no_temp_files)
  = [("510300", [("000001", 0 + (2 # 5)); ("600519", 0 + (3 # 5))])].
Proof. reflexivity. Qed.

Lemma load_all_direct_reads_witness :
  snd (load_all (fun _ => None) (fun _ => false) Decimal.parse
                same_stem_files {| temp_files := [7%nat]; next_temp := 8 |})
  = {| temp_files := [7%nat]; next_temp := 8 |}.
Proof.
  apply (@load_all_direct_reads (fun _ => None) (fun _ => false) Decimal.parse
           same_stem_files {| temp_files := [7%nat]; next_temp := 8 |}).
  repeat constructor; discriminate.
Defined.

(** ** Weight scheme resolver, further *)














(** ** Aggregator, further *)















(** ** Driver *)





Example main_demo :
  match fst (main (fun _ => None) (fun _ => true) Decimal.parse sort_keep_ties
                  Equal demo_files no_temp_files) with
  | Saved csv shown => map code csv = ["000001"; "600519"] /\ shown = csv
  | _ => False
  end.
Proof. split; reflexivity. Qed.
